(** * The message-routing and response-formatting pipeline of xmpt-infofi

    A shallow embedding of [src/xmtpService.ts] (classifier adapter,
    parameter extractor, lookup client, response formatters, reply
    dispatch) and of [src/messageStore.ts] (the conversation store),
    together with the properties the specification states about them.

    JavaScript strings are sequences of UTF-16 code units, values coming
    out of [JSON.parse] are dynamically typed, and every operation that can
    raise is written in an error monad, so that each [try]/[catch] of the
    source is visible in the model.  The diagnostics written to the console
    are left out: they return nothing and change nothing. *)

From Stdlib Require Import List NArith ZArith Bool Lia String Ascii.
From Stdlib Require Import DecimalString Permutation Sorted.
Import ListNotations.

Set Implicit Arguments.
Set Warnings "-register-all".


(* ================================================================== *)
(** * JavaScript strings *)
(* ================================================================== *)

(** A string is the list of its UTF-16 code units; [length], [substring],
    [split], [startsWith] and [trim] all count code units, as in the
    language. *)
Definition code_unit := N.
Definition jsstring := list code_unit.

Definition jsstring_eq_dec : forall a b : jsstring, {a = b} + {a <> b} :=
  list_eq_dec N.eq_dec.

Definition str_eqb (a b : jsstring) : bool :=
  if jsstring_eq_dec a b then true else false.

(** ** Literals

    The source file is UTF-8; a literal is read as the UTF-16 string the
    TypeScript compiler makes of it. *)

Definition bytes_of (s : string) : list N :=
  map N_of_ascii (list_ascii_of_string s).

Fixpoint decode_utf8 (bs : list N) : list N :=
  match bs with
  | [] => []
  | b0 :: r0 =>
      if (b0 <? 0x80)%N then b0 :: decode_utf8 r0
      else
        match r0 with
        | [] => []
        | b1 :: r1 =>
            if (b0 <? 0xE0)%N
            then ((b0 mod 0x20) * 0x40 + b1 mod 0x40)%N :: decode_utf8 r1
            else
              match r1 with
              | [] => []
              | b2 :: r2 =>
                  if (b0 <? 0xF0)%N
                  then ((b0 mod 0x10) * 0x1000 + (b1 mod 0x40) * 0x40
                        + b2 mod 0x40)%N :: decode_utf8 r2
                  else
                    match r2 with
                    | [] => []
                    | b3 :: r3 =>
                        ((b0 mod 0x8) * 0x40000 + (b1 mod 0x40) * 0x1000
                         + (b2 mod 0x40) * 0x40 + b3 mod 0x40)%N
                        :: decode_utf8 r3
                    end
              end
        end
  end.

Definition utf16_of_code_point (cp : N) : jsstring :=
  if (cp <? 0x10000)%N then [cp]
  else [(0xD800 + (cp - 0x10000) / 0x400)%N;
        (0xDC00 + (cp - 0x10000) mod 0x400)%N].

Definition utf16 (s : string) : jsstring :=
  flat_map utf16_of_code_point (decode_utf8 (bytes_of s)).

(** The double quote and the line feed, which a literal of this file cannot
    hold directly. *)
Definition dq : jsstring := [34%N].
Definition LF : jsstring := [10%N].

(** ** [String.prototype.trim]

    WhiteSpace and LineTerminator of ECMAScript: TAB, LF, VT, FF, CR, SP,
    NBSP, the Unicode space separators, LS, PS and ZWNBSP. *)
Definition is_white_space (c : code_unit) : bool :=
  ((9 <=? c) && (c <=? 13) || (c =? 32) || (c =? 0xA0) || (c =? 0x1680)
   || (0x2000 <=? c) && (c <=? 0x200A) || (c =? 0x2028) || (c =? 0x2029)
   || (c =? 0x202F) || (c =? 0x205F) || (c =? 0x3000) || (c =? 0xFEFF))%N.

Fixpoint trimStart (s : jsstring) : jsstring :=
  match s with
  | c :: r => if is_white_space c then trimStart r else s
  | [] => []
  end.

Definition trimEnd (s : jsstring) : jsstring := rev (trimStart (rev s)).

Definition trim (s : jsstring) : jsstring := trimEnd (trimStart s).

(** ** [startsWith], [substring], [split], [replace] *)

Fixpoint startsWith (s prefix : jsstring) : bool :=
  match prefix, s with
  | [], _ => true
  | p :: prefix', c :: s' => (c =? p)%N && startsWith s' prefix'
  | _ :: _, [] => false
  end.

(** [s.substring(from, to)] for [from <= to]. *)
Definition substring (s : jsstring) (from to : nat) : jsstring :=
  firstn (to - from) (skipn from s).

(** [s.substring(from)]. *)
Definition substring_from (s : jsstring) (from : nat) : jsstring :=
  skipn from s.

(** [s.split(sep)] for a separator of one code unit: always at least one
    piece, and two adjacent separators enclose an empty piece. *)
Fixpoint split_on (sep : code_unit) (s : jsstring) : list jsstring :=
  match s with
  | [] => [[]]
  | c :: r =>
      if (c =? sep)%N then [] :: split_on sep r
      else
        match split_on sep r with
        | w :: ws => (c :: w) :: ws
        | [] => [[c]]
        end
  end.

(** [s.replace(pattern, replacement)] with a string pattern: the first
    occurrence only.  The replacement is taken literally, which is what the
    language does when it holds no '$'. *)
Fixpoint replace_first (pattern replacement s : jsstring) : jsstring :=
  if startsWith s pattern
  then replacement ++ skipn (List.length pattern) s
  else
    match s with
    | [] => []
    | c :: r => c :: replace_first pattern replacement r
    end.

(** Decimal rendering of an integer, [Number::toString] on the integers
    below 10^21. *)
Definition decimal (z : Z) : jsstring :=
  bytes_of (NilZero.string_of_int (Z.to_int z)).

(** Concatenation of the pieces of a template literal. *)
Definition template (pieces : list jsstring) : jsstring :=
  List.concat pieces.

(* ================================================================== *)
(** * Completions: values and thrown errors *)
(* ================================================================== *)

Inductive js_error : Type :=
| TypeError
| URIError
| ServiceError (message : jsstring).

Inductive completion (A : Type) : Type :=
| Normal (a : A)
| Throw (e : js_error).

Arguments Normal {A} a.
Arguments Throw {A} e.

Definition bind {A B} (c : completion A) (k : A -> completion B)
  : completion B :=
  match c with
  | Normal a => k a
  | Throw e => Throw e
  end.

Declare Scope js_scope.
Delimit Scope js_scope with js.
Notation "x <- c ;; k" := (bind c (fun x => k))
  (at level 61, c at next level, right associativity) : js_scope.
Open Scope js_scope.

(** [try { body } catch (error) { handler }]. *)
Definition try_catch {A} (body : completion A)
  (handler : js_error -> completion A) : completion A :=
  match body with
  | Normal a => Normal a
  | Throw e => handler e
  end.


(* ================================================================== *)
(** * Values *)
(* ================================================================== *)

(** What [JSON.parse] returns, and [undefined], which reading an absent
    property yields.  An object keeps its properties in insertion order,
    each key once.  A number is modelled by its integer value: the counters
    and lengths the formatters handle are integers, and fractions, NaN and
    the infinities are left out of the model. *)
Inductive value : Type :=
| VUndefined
| VNull
| VBool (b : bool)
| VNum (n : Z)
| VStr (s : jsstring)
| VArr (elements : list value)
| VObj (properties : list (jsstring * value)).

Definition properties_t := list (jsstring * value).

Fixpoint own_property (k : jsstring) (props : properties_t)
  : option value :=
  match props with
  | [] => None
  | (k', v) :: rest => if str_eqb k k' then Some v else own_property k rest
  end.


(** ToBoolean. *)
Definition truthy (v : value) : bool :=
  match v with
  | VUndefined | VNull => false
  | VBool b => b
  | VNum n => negb (n =? 0)%Z
  | VStr s => match s with [] => false | _ :: _ => true end
  | VArr _ | VObj _ => true
  end.

(** [a || b]. *)
Definition or_else (a b : value) : value := if truthy a then a else b.

(** [Array.isArray]. *)
Definition isArray (v : value) : bool :=
  match v with VArr _ => true | _ => false end.

(** [v.k], for the property names this program reads.  None of them names
    a member of a built-in prototype, so apart from [length] on strings and
    arrays only own properties of objects are found; reading a property of
    [undefined] or [null] raises a TypeError. *)
Definition field (props : properties_t) (k : jsstring) : value :=
  match own_property k props with
  | Some x => x
  | None => VUndefined
  end.

Definition get_prop (v : value) (k : jsstring) : completion value :=
  match v with
  | VUndefined | VNull => Throw TypeError
  | VObj props => Normal (field props k)
  | VStr s =>
      Normal (if str_eqb k (utf16 "length")
              then VNum (Z.of_nat (List.length s)) else VUndefined)
  | VArr l =>
      Normal (if str_eqb k (utf16 "length")
              then VNum (Z.of_nat (List.length l)) else VUndefined)
  | VBool _ | VNum _ => Normal VUndefined
  end.

(** [a.k1.k2]. *)
Definition get_path2 (v : value) (k1 k2 : jsstring) : completion value :=
  r <- get_prop v k1 ;; get_prop r k2.

(** ToString, as a template literal applies it.  An array prints its
    elements separated by commas, [null] and [undefined] elements as
    nothing.  A plain object prints as [[object Object]] through
    [Object.prototype.toString]; when it has an own property [toString]
    (never callable in parsed JSON) no conversion is left and a TypeError is
    raised. *)
Fixpoint ToString (v : value) : completion jsstring :=
  match v with
  | VUndefined => Normal (utf16 "undefined")
  | VNull => Normal (utf16 "null")
  | VBool true => Normal (utf16 "true")
  | VBool false => Normal (utf16 "false")
  | VNum n => Normal (decimal n)
  | VStr s => Normal s
  | VArr l =>
      (fix join_comma (l : list value) : completion jsstring :=
         match l with
         | [] => Normal []
         | x :: r =>
             a <- match x with
                  | VUndefined | VNull => Normal []
                  | _ => ToString x
                  end ;;
             match r with
             | [] => Normal a
             | _ :: _ => b <- join_comma r ;; Normal (a ++ utf16 "," ++ b)
             end
         end) l
  | VObj props =>
      match own_property (utf16 "toString") props with
      | Some _ => Throw TypeError
      | None => Normal (utf16 "[object Object]")
      end
  end.

Definition element_string (x : value) : completion jsstring :=
  match x with
  | VUndefined | VNull => Normal []
  | _ => ToString x
  end.

(** [elements.join(sep)]. *)
Fixpoint join (sep : jsstring) (elements : list value)
  : completion jsstring :=
  match elements with
  | [] => Normal []
  | x :: r =>
      a <- element_string x ;;
      match r with
      | [] => Normal a
      | _ :: _ => b <- join sep r ;; Normal (a ++ sep ++ b)
      end
  end.

(** ToPrimitive: an array or an object converts through its string. *)
Definition ToPrimitive (v : value) : completion value :=
  match v with
  | VArr _ | VObj _ => s <- ToString v ;; Normal (VStr s)
  | _ => Normal v
  end.

(** [arr.forEach(callback)], the callback threading the variable it
    updates; on anything but an array [forEach] is not a function. *)
Fixpoint forEach_from {A} (callback : value -> nat -> A -> completion A)
  (elements : list value) (index : nat) (acc : A) : completion A :=
  match elements with
  | [] => Normal acc
  | x :: r =>
      acc' <- callback x index acc ;; forEach_from callback r (S index) acc'
  end.

Definition forEach {A} (v : value)
  (callback : value -> nat -> A -> completion A) (acc : A)
  : completion A :=
  match v with
  | VArr l => forEach_from callback l 0 acc
  | _ => Throw TypeError
  end.

(** [v === 0]. *)
Definition is_zero (v : value) : bool :=
  match v with VNum n => (n =? 0)%Z | _ => false end.

(** [s.substring(0, n)]; only a string has the method. *)
Definition call_substring (v : value) (from to : nat)
  : completion jsstring :=
  match v with
  | VStr s => Normal (substring s from to)
  | _ => Throw TypeError
  end.

(* ================================================================== *)
(** * The platform *)
(* ================================================================== *)

(** Library functions the program calls and this development leaves
    open: the Unicode lower-casing, the JSON reader and printer, and the
    numeric reading of a string in a comparison. *)
Class Platform : Type := {
  (** [s.toLowerCase()] *)
  toLowerCase : jsstring -> jsstring;
  (** [JSON.parse(s)]; [None] when it raises a SyntaxError *)
  JSON_parse : jsstring -> option value;
  (** [JSON.stringify(v, null, 2)] *)
  JSON_stringify : value -> jsstring;
  (** [s > n], the string read as a number by StringToNumber *)
  StringToNumber_gt : jsstring -> Z -> bool
}.

(* ================================================================== *)
(** * Response formatters ([xmtpService.ts], lines 170-259) *)
(* ================================================================== *)

Definition NA : value := VStr (utf16 "N/A").




(** [Array.isArray(t) ? t.join(', ') : (t || 'N/A')]. *)
Definition tags_text (t : value) : completion value :=
  match t with
  | VArr l => s <- join (utf16 ", ") l ;; Normal (VStr s)
  | _ => Normal (or_else t NA)
  end.

(** The template literal of [formatEndpoint1Response], as a function of
    the strings interpolated. *)
Definition profile_template
  (name authorHandle bio profileImageUrl followersCount tags : jsstring)
  : jsstring :=
  template
    [utf16 "👤 Name: "; name; LF;
     utf16 "🏷️ Handle: "; authorHandle; LF;
     utf16 "📝 Bio: "; bio; LF;
     utf16 "🖼️ Profile Image: "; profileImageUrl; LF;
     utf16 "👥 Followers: "; followersCount; LF;
     utf16 "🏷️ Tags: "; tags].

(** The [try] block of [formatEndpoint1Response]. *)
Definition formatEndpoint1_try (data : value) : completion jsstring :=
  name0 <- get_path2 data (utf16 "result") (utf16 "name") ;;
  let name := or_else name0 NA in
  authorHandle0 <- get_path2 data (utf16 "result") (utf16 "author_handle") ;;
  let authorHandle := or_else authorHandle0 NA in
  bio0 <- get_path2 data (utf16 "result") (utf16 "bio") ;;
  let bio := or_else bio0 NA in
  profileImageUrl0 <-
    get_path2 data (utf16 "result") (utf16 "profile_image_url") ;;
  let profileImageUrl := or_else profileImageUrl0 NA in
  followersCount0 <-
    get_path2 data (utf16 "result") (utf16 "followers_count") ;;
  let followersCount := or_else followersCount0 NA in
  tags0 <- get_path2 data (utf16 "result") (utf16 "tags") ;;
  tags <- tags_text tags0 ;;
  s_name <- ToString name ;;
  s_authorHandle <- ToString authorHandle ;;
  s_bio <- ToString bio ;;
  s_profileImageUrl <- ToString profileImageUrl ;;
  s_followersCount <- ToString followersCount ;;
  s_tags <- ToString tags ;;
  Normal (profile_template s_name s_authorHandle s_bio s_profileImageUrl
            s_followersCount s_tags).

Definition profile_error : jsstring := utf16 "Error formatting profile data".

Definition formatEndpoint1Response (data : value) : completion jsstring :=
  try_catch (formatEndpoint1_try data) (fun _ => Normal profile_error).

(** The template literal appended for one follower. *)
Definition follower_template (index : nat)
  (profileName handle profileImageUrl tags followersCount smartFollowers
   : jsstring) : jsstring :=
  template
    [decimal (Z.of_nat index + 1); utf16 ". 👤 "; profileName; LF;
     utf16 "   🏷️ @"; handle; LF;
     utf16 "   🖼️ "; profileImageUrl; LF;
     utf16 "   🏷️ "; tags; LF;
     utf16 "   👥 "; followersCount; utf16 " followers"; LF;
     utf16 "   ⭐ "; smartFollowers; utf16 " smart followers"; LF; LF].

(** The callback of [followings.forEach] in [formatEndpoint3Response]. *)
Definition follower_block (follower : value) (index : nat)
  (response : jsstring) : completion jsstring :=
  profileName0 <- get_prop follower (utf16 "profile_name") ;;
  let profileName := or_else profileName0 NA in
  handle0 <- get_prop follower (utf16 "handle") ;;
  let handle := or_else handle0 NA in
  profileImageUrl0 <- get_prop follower (utf16 "profile_image_url") ;;
  let profileImageUrl := or_else profileImageUrl0 NA in
  tags0 <- get_prop follower (utf16 "tags") ;;
  tags <- tags_text tags0 ;;
  followersCount0 <- get_prop follower (utf16 "followers_count") ;;
  let followersCount := or_else followersCount0 NA in
  smartFollowers0 <- get_prop follower (utf16 "smart_followers") ;;
  let smartFollowers := or_else smartFollowers0 NA in
  s_profileName <- ToString profileName ;;
  s_handle <- ToString handle ;;
  s_profileImageUrl <- ToString profileImageUrl ;;
  s_tags <- ToString tags ;;
  s_followersCount <- ToString followersCount ;;
  s_smartFollowers <- ToString smartFollowers ;;
  Normal (response ++
          follower_template index s_profileName s_handle s_profileImageUrl
            s_tags s_followersCount s_smartFollowers).

Definition followers_header (count : jsstring) : jsstring :=
  template [utf16 "🌟 Top Smart Followers ("; count; utf16 "):"; LF; LF].

Definition no_followers : jsstring := utf16 "❌ No followers data found".

Definition formatEndpoint3_try (data : value) : completion jsstring :=
  followings0 <- get_path2 data (utf16 "result") (utf16 "followings") ;;
  let followings := or_else followings0 (VArr []) in
  len <- get_prop followings (utf16 "length") ;;
  if is_zero len then Normal no_followers
  else
    s_len <- ToString len ;;
    let response := followers_header s_len in
    response' <- forEach followings follower_block response ;;
    Normal (trim response').

Definition followers_error : jsstring :=
  utf16 "Error formatting followers data".

Definition formatEndpoint3Response (data : value) : completion jsstring :=
  try_catch (formatEndpoint3_try data) (fun _ => Normal followers_error).

(** The template literal appended for one tweet. *)
Definition tweet_template (index : nat)
  (truncatedBody createTime viewCount likeCount replyCount retweetCount
   category : jsstring) : jsstring :=
  template
    [decimal (Z.of_nat index + 1); utf16 ". 📝 "; truncatedBody; LF;
     utf16 "   📅 "; createTime; LF;
     utf16 "   👀 "; viewCount; utf16 " views"; LF;
     utf16 "   ❤️ "; likeCount; utf16 " likes"; LF;
     utf16 "   💬 "; replyCount; utf16 " replies"; LF;
     utf16 "   🔄 "; retweetCount; utf16 " retweets"; LF;
     utf16 "   🏷️ "; category; LF; LF].

Definition tweets_header (count : jsstring) : jsstring :=
  template [utf16 "🐦 Top Tweets ("; count; utf16 "):"; LF; LF].


Section Tweets.
Context {P : Platform}.

(** [v > n]: both sides go to numbers unless both are strings; [undefined]
    reads as NaN, which is greater than nothing. *)
Definition greater_than (v : value) (n : Z) : completion bool :=
  p <- ToPrimitive v ;;
  Normal match p with
         | VNum m => (n <? m)%Z
         | VBool b => (n <? (if b then 1 else 0))%Z
         | VNull => (n <? 0)%Z
         | VStr s => StringToNumber_gt s n
         | _ => false
         end.

(** [body.length > 200 ? body.substring(0, 200) + '...' : body]. *)
Definition truncate_body (body : value) : completion value :=
  len <- get_prop body (utf16 "length") ;;
  long <- greater_than len 200 ;;
  if long
  then s <- call_substring body 0 200 ;; Normal (VStr (s ++ utf16 "..."))
  else Normal body.

(** The callback of [tweets.forEach] in [formatEndpoint2Response]. *)
Definition tweet_block (tweet : value) (index : nat) (response : jsstring)
  : completion jsstring :=
  body0 <- get_prop tweet (utf16 "body") ;;
  let body := or_else body0 NA in
  createTime0 <- get_prop tweet (utf16 "tweet_create_time") ;;
  let createTime := or_else createTime0 NA in
  viewCount0 <- get_prop tweet (utf16 "view_count") ;;
  let viewCount := or_else viewCount0 NA in
  likeCount0 <- get_prop tweet (utf16 "like_count") ;;
  let likeCount := or_else likeCount0 NA in
  replyCount0 <- get_prop tweet (utf16 "reply_count") ;;
  let replyCount := or_else replyCount0 NA in
  retweetCount0 <- get_prop tweet (utf16 "retweet_count") ;;
  let retweetCount := or_else retweetCount0 NA in
  category0 <- get_prop tweet (utf16 "tweet_category") ;;
  let category := or_else category0 NA in
  truncatedBody <- truncate_body body ;;
  s_truncatedBody <- ToString truncatedBody ;;
  s_createTime <- ToString createTime ;;
  s_viewCount <- ToString viewCount ;;
  s_likeCount <- ToString likeCount ;;
  s_replyCount <- ToString replyCount ;;
  s_retweetCount <- ToString retweetCount ;;
  s_category <- ToString category ;;
  Normal (response ++
          tweet_template index s_truncatedBody s_createTime s_viewCount
            s_likeCount s_replyCount s_retweetCount s_category).

Definition no_tweets : jsstring := utf16 "❌ No tweets data found".

Definition formatEndpoint2_try (data : value) : completion jsstring :=
  tweets0 <- get_prop data (utf16 "result") ;;
  let tweets := or_else tweets0 (VArr []) in
  len <- get_prop tweets (utf16 "length") ;;
  if is_zero len then Normal no_tweets
  else
    s_len <- ToString len ;;
    let response := tweets_header s_len in
    response' <- forEach tweets tweet_block response ;;
    Normal (trim response').

Definition tweets_error : jsstring := utf16 "Error formatting tweets data".

Definition formatEndpoint2Response (data : value) : completion jsstring :=
  try_catch (formatEndpoint2_try data) (fun _ => Normal tweets_error).

End Tweets.

(* ================================================================== *)
(** * Classifier adapter and parameter extractor (lines 20-93) *)
(* ================================================================== *)

Definition endpoint1 : jsstring := utf16 "endpoint1".
Definition endpoint2 : jsstring := utf16 "endpoint2".
Definition endpoint3 : jsstring := utf16 "endpoint3".

(** The closed set of action identifiers. *)
Definition ActionIds : list jsstring := [endpoint1; endpoint2; endpoint3].

Definition is_ActionId (s : jsstring) : bool :=
  str_eqb s endpoint1 || str_eqb s endpoint2 || str_eqb s endpoint3.

(** The completion service: given the prompt, the text of
    [(await model.generateContent(prompt)).response.text()], or the error
    raised anywhere on the way to it. *)
Definition completion_service := jsstring -> completion jsstring.

Definition decision_prompt (userMessage : jsstring) : jsstring :=
  template
    [LF;
     utf16 "You are an AI assistant that needs to decide which API endpoint to call based on user input."; LF;
     LF;
     utf16 "Available API endpoints:"; LF;
     utf16 "1. endpoint1: For getting author handle details and social media information"; LF;
     utf16 "2. endpoint2: For getting top tweets of the author"; LF;
     utf16 "3. endpoint3: For getting top followers or smart followers of the author"; LF;
     LF;
     utf16 "User message: "; dq; userMessage; dq; LF;
     LF;
     utf16 "Based on the user's message, which endpoint should be called? Respond with ONLY one of these options:"; LF;
     utf16 "- endpoint1"; LF;
     utf16 "- endpoint2  "; LF;
     utf16 "- endpoint3"; LF;
     LF;
     utf16 "Consider the context and intent of the user's message to make the best choice."; LF].


Definition extraction_prompt (userMessage : jsstring) : jsstring :=
  template
    [LF;
     utf16 "Extract the author handle (username/handle) from the following user message. "; LF;
     utf16 "The author handle could be mentioned with or without @ symbol, or could be a Twitter/social media username."; LF;
     LF;
     utf16 "User message: "; dq; userMessage; dq; LF;
     LF;
     utf16 "Return ONLY the author handle without any @ symbol or additional text. If no clear author handle is found, return the most relevant username or handle mentioned."; LF;
     LF;
     utf16 "Examples:"; LF;
     utf16 "- "; dq; utf16 "Get details for @elonmusk"; dq; utf16 " -> "; dq; utf16 "elonmusk"; dq; LF;
     utf16 "- "; dq; utf16 "Show me tweets from vitalik"; dq; utf16 " -> "; dq; utf16 "vitalik"; dq; LF;
     utf16 "- "; dq; utf16 "What are the followers of @naval?"; dq; utf16 " -> "; dq; utf16 "naval"; dq; LF;
     utf16 "- "; dq; utf16 "kaitoai profile"; dq; utf16 " -> "; dq; utf16 "kaitoai"; dq; LF].

Section Classifier.
Context {P : Platform}.

Definition decideApiEndpoint (userMessage : jsstring)
  (model : completion_service) : completion jsstring :=
  try_catch
    (text <- model (decision_prompt userMessage) ;;
     let decision := toLowerCase (trim text) in
     if str_eqb decision endpoint1 || str_eqb decision endpoint2
        || str_eqb decision endpoint3
     then Normal decision
     else Normal endpoint1)
    (fun _ => Normal endpoint1).

End Classifier.

(** [/^[a-zA-Z0-9_]{3,}$/]. *)
Definition is_word_char (c : code_unit) : bool :=
  ((97 <=? c) && (c <=? 122) || (65 <=? c) && (c <=? 90)
   || (48 <=? c) && (c <=? 57) || (c =? 95))%N.

Definition matches_handle (word : jsstring) : bool :=
  (3 <=? List.length word)%nat && forallb is_word_char word.

Definition at_sign : jsstring := utf16 "@".

(** The [for] loop over the words: the first word that passes either test
    ends it. *)
Fixpoint scan_words (words : list jsstring) : option jsstring :=
  match words with
  | [] => None
  | word :: rest =>
      if startsWith word at_sign then Some (substring_from word 1)
      else if matches_handle word then Some word
      else scan_words rest
  end.

(** The [catch] block of [extractAuthorHandle]. *)
Definition extractAuthorHandle_catch (userMessage : jsstring) : jsstring :=
  let words := split_on 32%N userMessage in
  match scan_words words with
  | Some handle => handle
  | None => trim userMessage
  end.

Definition extractAuthorHandle (userMessage : jsstring)
  (model : completion_service) : completion jsstring :=
  try_catch
    (text <- model (extraction_prompt userMessage) ;;
     Normal (replace_first at_sign [] (trim text)))
    (fun _ => Normal (extractAuthorHandle_catch userMessage)).

(* ================================================================== *)
(** * Lookup client (lines 14-18 and 95-168) *)
(* ================================================================== *)

Record endpoints : Type := {
  url_endpoint1 : jsstring;
  url_endpoint2 : jsstring;
  url_endpoint3 : jsstring
}.

Definition API_ENDPOINTS : endpoints := {|
  url_endpoint1 := utf16 "https://api.cred.buzz/user/author-handle-details?author_handle=author_value";
  url_endpoint2 := utf16 "https://api.cred.buzz/user/get-top-tweets?author_handle=author_value&interval=7day&sort_by=view_count_desc&limit=5";
  url_endpoint3 := utf16 "https://api.cred.buzz/user/author-handle-followers?author_handle=author_value&sort_by=smart_followers_count_desc&limit=10&start=0"
|}.

(** ** [encodeURIComponent] *)

Definition is_uri_unreserved (c : code_unit) : bool :=
  ((97 <=? c) && (c <=? 122) || (65 <=? c) && (c <=? 90)
   || (48 <=? c) && (c <=? 57)
   || existsb (N.eqb c) (utf16 "-_.!~*'()"))%N.

Definition is_lead_surrogate (c : code_unit) : bool :=
  ((0xD800 <=? c) && (c <=? 0xDBFF))%N.

Definition is_trail_surrogate (c : code_unit) : bool :=
  ((0xDC00 <=? c) && (c <=? 0xDFFF))%N.

Definition hex_digit (n : N) : code_unit :=
  (if n <? 10 then 48 + n else 55 + n)%N.

Definition percent_octet (b : N) : jsstring :=
  [37%N; hex_digit (b / 16); hex_digit (b mod 16)].

Definition utf8_octets (cp : N) : list N :=
  (if cp <? 0x80 then [cp]
   else if cp <? 0x800 then [0xC0 + cp / 0x40; 0x80 + cp mod 0x40]
   else if cp <? 0x10000
   then [0xE0 + cp / 0x1000; 0x80 + (cp / 0x40) mod 0x40; 0x80 + cp mod 0x40]
   else [0xF0 + cp / 0x40000; 0x80 + (cp / 0x1000) mod 0x40;
         0x80 + (cp / 0x40) mod 0x40; 0x80 + cp mod 0x40])%N.

Definition escape_code_point (cp : N) : jsstring :=
  flat_map percent_octet (utf8_octets cp).

(** A surrogate without its partner raises a URIError. *)
Fixpoint encodeURIComponent (s : jsstring) : completion jsstring :=
  match s with
  | [] => Normal []
  | c :: r =>
      if is_uri_unreserved c
      then rest <- encodeURIComponent r ;; Normal (c :: rest)
      else if is_trail_surrogate c then Throw URIError
      else if is_lead_surrogate c
      then
        match r with
        | d :: r' =>
            if is_trail_surrogate d
            then
              rest <- encodeURIComponent r' ;;
              Normal (escape_code_point
                        (0x10000 + (c - 0xD800) * 0x400 + (d - 0xDC00))%N
                      ++ rest)
            else Throw URIError
        | [] => Throw URIError
        end
      else rest <- encodeURIComponent r ;; Normal (escape_code_point c ++ rest)
  end.

Definition author_value : jsstring := utf16 "author_value".

(** The [switch] on [endpoint]. *)
Definition request_url (endpoint authorHandle : jsstring)
  : completion jsstring :=
  if str_eqb endpoint endpoint1
  then encoded <- encodeURIComponent authorHandle ;;
       Normal (replace_first author_value encoded
                 (url_endpoint1 API_ENDPOINTS))
  else if str_eqb endpoint endpoint2
  then encoded <- encodeURIComponent authorHandle ;;
       Normal (replace_first author_value encoded
                 (url_endpoint2 API_ENDPOINTS))
  else if str_eqb endpoint endpoint3
  then encoded <- encodeURIComponent authorHandle ;;
       Normal (replace_first author_value encoded
                 (url_endpoint3 API_ENDPOINTS))
  else encoded <- encodeURIComponent authorHandle ;;
       Normal (replace_first author_value encoded
                 (url_endpoint1 API_ENDPOINTS)).

(** ** The promise and the request *)

Inductive settlement : Type :=
| Fulfilled (v : value)
| Rejected (e : js_error).

(** What the HTTPS layer reports, in the order the handlers run: a chunk of
    the response body, the end of the response, an error of the request,
    the expiry of the 10000 ms set by [req.setTimeout]. *)
Inductive transport_event : Type :=
| ResponseData (chunk : jsstring)
| ResponseEnd
| RequestError (message : jsstring)
| RequestTimeout.

(** [url]: the address requested, if a request was made; [data]: the
    body received so far; [destroyed]: whether [req.destroy()] ran;
    [promise]: [None] while the promise is pending. *)
Record request : Type := {
  url : option jsstring;
  data : jsstring;
  destroyed : bool;
  promise : option settlement
}.

(** [resolve(v)]: a promise settles once, later calls change nothing. *)
Definition resolve (v : value) (p : option settlement)
  : option settlement :=
  match p with
  | None => Some (Fulfilled v)
  | Some _ => p
  end.

Definition success_result (endpoint authorHandle : jsstring)
  (parsedData : value) : value :=
  VObj [(utf16 "endpoint_used", VStr endpoint);
        (utf16 "author_handle", VStr authorHandle);
        (utf16 "data", parsedData)].

Definition parse_failure_result (endpoint authorHandle raw : jsstring)
  : value :=
  VObj [(utf16 "endpoint_used", VStr endpoint);
        (utf16 "author_handle", VStr authorHandle);
        (utf16 "error", VStr (utf16 "Failed to parse response"));
        (utf16 "raw_data", VStr raw)].

Definition error_result (endpoint authorHandle message : jsstring)
  : value :=
  VObj [(utf16 "endpoint_used", VStr endpoint);
        (utf16 "author_handle", VStr authorHandle);
        (utf16 "error", VStr message)].

Definition timeout_result (endpoint authorHandle : jsstring) : value :=
  error_result endpoint authorHandle (utf16 "Request timeout").

(** What holds of the promise all along: it is never rejected by a
    handler, and a result names the endpoint it was given. *)
Definition names_endpoint (endpoint : jsstring) (p : option settlement)
  : Prop :=
  match p with
  | None => True
  | Some (Fulfilled v) =>
      get_prop v (utf16 "endpoint_used") = Normal (VStr endpoint)
  | Some (Rejected _) => False
  end.

Section Lookup.
Context {P : Platform}.

(** The handlers registered on the response and on the request. *)
Definition on_event (endpoint authorHandle : jsstring) (st : request)
  (ev : transport_event) : request :=
  match ev with
  | ResponseData chunk =>
      {| url := url st; data := data st ++ chunk;
         destroyed := destroyed st; promise := promise st |}
  | ResponseEnd =>
      {| url := url st; data := data st; destroyed := destroyed st;
         promise :=
           match JSON_parse (data st) with
           | Some parsedData =>
               resolve (success_result endpoint authorHandle parsedData)
                 (promise st)
           | None =>
               resolve (parse_failure_result endpoint authorHandle (data st))
                 (promise st)
           end |}
  | RequestError message =>
      {| url := url st; data := data st; destroyed := destroyed st;
         promise :=
           resolve (error_result endpoint authorHandle message)
             (promise st) |}
  | RequestTimeout =>
      {| url := url st; data := data st; destroyed := true;
         promise :=
           resolve (timeout_result endpoint authorHandle) (promise st) |}
  end.

(** [makeApiCall(endpoint, authorHandle)] against a transport that then
    reports [trace].  An exception in the executor of [new Promise] rejects
    the promise, and no request is made. *)
Definition handle_events (endpoint authorHandle : jsstring)
  (trace : list transport_event) (st : request) : request :=
  fold_left (on_event endpoint authorHandle) trace st.

Definition makeApiCall (endpoint authorHandle : jsstring)
  (trace : list transport_event) : request :=
  match request_url endpoint authorHandle with
  | Throw e =>
      {| url := None; data := []; destroyed := false;
         promise := Some (Rejected e) |}
  | Normal u =>
      handle_events endpoint authorHandle trace
        {| url := Some u; data := []; destroyed := false; promise := None |}
  end.

(** ** Reply dispatch (lines 352-396) *)

Definition failed_to_process : value :=
  VObj [(utf16 "error", VStr (utf16 "Failed to process request"))].

(** The [if] on [apiResponse.data && !apiResponse.error]. *)
Definition responseMessage (selectedEndpoint : jsstring)
  (apiResponse : value) : completion jsstring :=
  data_field <- get_prop apiResponse (utf16 "data") ;;
  error_field <- get_prop apiResponse (utf16 "error") ;;
  if truthy data_field && negb (truthy error_field)
  then
    if str_eqb selectedEndpoint endpoint1
    then formatEndpoint1Response data_field
    else if str_eqb selectedEndpoint endpoint2
    then formatEndpoint2Response data_field
    else if str_eqb selectedEndpoint endpoint3
    then formatEndpoint3Response data_field
    else Normal (JSON_stringify apiResponse)
  else Normal (JSON_stringify apiResponse).

(** The [try]/[catch] around one inbound message, up to the text handed
    to [conversation.send]; [None] while the lookup is still pending.  The
    sending itself belongs to the messaging client. *)
Definition reply (messageContent : jsstring) (model : completion_service)
  (trace : list transport_event) : option jsstring :=
  match decideApiEndpoint messageContent model with
  | Throw _ => Some (JSON_stringify failed_to_process)
  | Normal selectedEndpoint =>
      match extractAuthorHandle messageContent model with
      | Throw _ => Some (JSON_stringify failed_to_process)
      | Normal authorHandle =>
          match promise (makeApiCall selectedEndpoint authorHandle trace) with
          | None => None
          | Some (Rejected _) => Some (JSON_stringify failed_to_process)
          | Some (Fulfilled apiResponse) =>
              match responseMessage selectedEndpoint apiResponse with
              | Normal text => Some text
              | Throw _ => Some (JSON_stringify failed_to_process)
              end
          end
      end
  end.

End Lookup.

(* ================================================================== *)
(** * Conversation store ([messageStore.ts]) *)
(* ================================================================== *)

(** [arr.sort(compare)].  The language leaves the algorithm open and fixes
    the result for a consistent comparator: the elements in the order of
    the comparator, equal ones in their original order.  Insertion from the
    right computes that order. *)
Fixpoint insert_by {A} (compare : A -> A -> Z) (x : A) (sorted : list A)
  : list A :=
  match sorted with
  | [] => [x]
  | y :: r =>
      if (compare x y <=? 0)%Z then x :: sorted
      else y :: insert_by compare x r
  end.

Definition Array_sort {A} (compare : A -> A -> Z) (l : list A) : list A :=
  fold_right (insert_by compare) [] l.

Module MessageStore.

Inductive direction : Type := incoming | outgoing.

Record Message : Type := {
  msg_id : jsstring;
  sender : jsstring;
  content : jsstring;
  timestamp : Z;
  type : direction;
  msg_conversationId : option jsstring
}.

Record Conversation : Type := {
  id : jsstring;
  participantAddress : jsstring;
  messages : list Message;
  lastActivity : Z
}.

(** The [Map] of the store, in insertion order, and the number of times the
    clock has been read.  The set of listeners stays empty, nothing in the
    repository subscribes, so [notifyListeners] has no effect. *)
Record store : Type := {
  conversations : list (jsstring * Conversation);
  ticks : nat
}.

Definition empty : store := {| conversations := []; ticks := 0 |}.

Fixpoint get (k : jsstring) (m : list (jsstring * Conversation))
  : option Conversation :=
  match m with
  | [] => None
  | (k', c) :: rest => if str_eqb k k' then Some c else get k rest
  end.

Definition has (k : jsstring) (m : list (jsstring * Conversation)) : bool :=
  match get k m with Some _ => true | None => false end.

(** Mutation of the conversation object stored under [k]. *)
Fixpoint update (k : jsstring) (f : Conversation -> Conversation)
  (m : list (jsstring * Conversation)) : list (jsstring * Conversation) :=
  match m with
  | [] => []
  | (k', c) :: rest =>
      if str_eqb k k' then (k', f c) :: rest
      else (k', c) :: update k f rest
  end.

Section Clock.

(** [clock n]: the time in milliseconds that the [n]-th evaluation of
    [new Date()] reads. *)
Variable clock : nat -> Z.

Definition push (message : Message) (now : Z) (c : Conversation)
  : Conversation :=
  {| id := id c; participantAddress := participantAddress c;
     messages := messages c ++ [message]; lastActivity := now |}.

Definition addMessage (message : Message)
  (conversationId participantAddress : jsstring) (st : store) : store :=
  let st1 :=
    if has conversationId (conversations st) then st
    else
      {| conversations :=
           conversations st ++
           [(conversationId,
             {| id := conversationId;
                participantAddress := participantAddress;
                messages := [];
                lastActivity := clock (ticks st) |})];
         ticks := S (ticks st) |}
  in
  {| conversations :=
       update conversationId (push message (clock (ticks st1)))
         (conversations st1);
     ticks := S (ticks st1) |}.

Definition markOutgoingMessage (conversationId messageId content : jsstring)
  (st : store) : store :=
  match get conversationId (conversations st) with
  | Some _ =>
      let message :=
        {| msg_id := messageId; sender := utf16 "You"; content := content;
           timestamp := clock (ticks st); type := outgoing;
           msg_conversationId := Some conversationId |}
      in
      {| conversations :=
           update conversationId (push message (clock (S (ticks st))))
             (conversations st);
         ticks := S (S (ticks st)) |}
  | None => st
  end.

(** One call of [addMessage], and a sequence of them. *)
Record call : Type := {
  call_message : Message;
  call_conversationId : jsstring;
  call_participantAddress : jsstring
}.

Definition run (calls : list call) (st : store) : store :=
  fold_left
    (fun st c =>
       addMessage (call_message c) (call_conversationId c)
         (call_participantAddress c) st)
    calls st.

End Clock.

Definition getConversations (st : store) : list Conversation :=
  Array_sort (fun a b => (lastActivity b - lastActivity a)%Z)
    (map snd (conversations st)).

Definition getConversation (k : jsstring) (st : store)
  : option Conversation :=
  get k (conversations st).

(** [c'] is [c] after some appends: same identifier, same participant,
    the messages of [c] followed by further ones. *)
Definition grown_from (c c' : Conversation) : Prop :=
  id c' = id c /\
  participantAddress c' = participantAddress c /\
  exists added, messages c' = messages c ++ added.

(** Most recent first. *)
Definition not_older (a b : Conversation) : Prop :=
  (lastActivity b <= lastActivity a)%Z.

End MessageStore.

(* ================================================================== *)
(** * A platform to evaluate with *)
(* ================================================================== *)

(** Stand-ins for the four library functions, used where a definition is
    evaluated on a concrete input: lower-casing of the Basic Latin letters,
    a reader that accepts the JSON texts without structure (the three
    literals, the empty string, array and object, the natural numbers) and
    refuses every other text, an indenting printer, and the reading of
    unsigned decimal numerals. *)

Definition ascii_lower (c : code_unit) : code_unit :=
  (if (65 <=? c) && (c <=? 90) then c + 32 else c)%N.

Definition sample_toLowerCase (s : jsstring) : jsstring := map ascii_lower s.

Fixpoint digits_value (acc : Z) (s : jsstring) : option Z :=
  match s with
  | [] => Some acc
  | c :: r =>
      if ((48 <=? c) && (c <=? 57))%N
      then digits_value (10 * acc + Z.of_N (c - 48)) r
      else None
  end.

Definition sample_JSON_parse (s : jsstring) : option value :=
  if str_eqb s (utf16 "null") then Some VNull
  else if str_eqb s (utf16 "true") then Some (VBool true)
  else if str_eqb s (utf16 "false") then Some (VBool false)
  else if str_eqb s (dq ++ dq) then Some (VStr [])
  else if str_eqb s (utf16 "[]") then Some (VArr [])
  else if str_eqb s (utf16 "{}") then Some (VObj [])
  else
    match s with
    | [] => None
    | c :: r =>
        if (c =? 48)%N
        then match r with [] => Some (VNum 0) | _ :: _ => None end
        else
          match digits_value 0 s with
          | Some n => Some (VNum n)
          | None => None
          end
    end.

Definition sample_gt (s : jsstring) (n : Z) : bool :=
  match digits_value 0 (trim s) with
  | Some m => (n <? m)%Z
  | None => false
  end.

Definition hex_lower (n : N) : code_unit :=
  (if n <? 10 then 48 + n else 87 + n)%N.

Definition backslash : jsstring := [92%N].

Definition unicode_escape (c : code_unit) : jsstring :=
  backslash ++ utf16 "u" ++
                [hex_lower (c / 4096); hex_lower ((c / 256) mod 16);
                 hex_lower ((c / 16) mod 16); hex_lower (c mod 16)].

Definition quote_unit (c : code_unit) : jsstring :=
  (if c =? 8 then backslash ++ utf16 "b"
   else if c =? 9 then backslash ++ utf16 "t"
   else if c =? 10 then backslash ++ utf16 "n"
   else if c =? 12 then backslash ++ utf16 "f"
   else if c =? 13 then backslash ++ utf16 "r"
   else if c =? 34 then backslash ++ dq
   else if c =? 92 then backslash ++ backslash
   else if c <? 32 then unicode_escape c
   else [c])%N.

Fixpoint quote_units (s : jsstring) : jsstring :=
  match s with
  | [] => []
  | c :: r =>
      if is_lead_surrogate c
      then
        match r with
        | d :: r' =>
            if is_trail_surrogate d then c :: d :: quote_units r'
            else unicode_escape c ++ quote_units r
        | [] => unicode_escape c
        end
      else if is_trail_surrogate c then unicode_escape c ++ quote_units r
      else quote_unit c ++ quote_units r
  end.

Definition quote (s : jsstring) : jsstring := dq ++ quote_units s ++ dq.

Fixpoint join_strings (sep : jsstring) (l : list jsstring) : jsstring :=
  match l with
  | [] => []
  | [a] => a
  | a :: r => a ++ sep ++ join_strings sep r
  end.

(** [None] is the [undefined] that the printer returns for [undefined]. *)
Fixpoint stringify (indent : jsstring) (v : value) : option jsstring :=
  let inner := indent ++ utf16 "  " in
  match v with
  | VUndefined => None
  | VNull => Some (utf16 "null")
  | VBool true => Some (utf16 "true")
  | VBool false => Some (utf16 "false")
  | VNum n => Some (decimal n)
  | VStr s => Some (quote s)
  | VArr l =>
      let items :=
        (fix items (l : list value) : list jsstring :=
           match l with
           | [] => []
           | x :: r =>
               match stringify inner x with
               | Some t => t
               | None => utf16 "null"
               end :: items r
           end) l
      in
      match items with
      | [] => Some (utf16 "[]")
      | _ :: _ =>
          Some (utf16 "[" ++ LF ++ inner
                ++ join_strings (utf16 "," ++ LF ++ inner) items
                ++ LF ++ indent ++ utf16 "]")
      end
  | VObj props =>
      let entries :=
        (fix entries (props : properties_t) : list jsstring :=
           match props with
           | [] => []
           | (k, x) :: r =>
               match stringify inner x with
               | Some t => (quote k ++ utf16 ": " ++ t) :: entries r
               | None => entries r
               end
           end) props
      in
      match entries with
      | [] => Some (utf16 "{}")
      | _ :: _ =>
          Some (utf16 "{" ++ LF ++ inner
                ++ join_strings (utf16 "," ++ LF ++ inner) entries
                ++ LF ++ indent ++ utf16 "}")
      end
  end.

Definition sample_JSON_stringify (v : value) : jsstring :=
  match stringify [] v with
  | Some s => s
  | None => []
  end.

Definition sample_platform : Platform := {|
  toLowerCase := sample_toLowerCase;
  JSON_parse := sample_JSON_parse;
  JSON_stringify := sample_JSON_stringify;
  StringToNumber_gt := sample_gt
|}.

(** ** Sample inputs *)

(** A completion service that is out of quota, and one that answers every
    prompt with the same text. *)
Definition failing_service : completion_service :=
  fun _ => Throw (ServiceError (utf16 "quota exceeded")).

Definition constant_service (answer : jsstring) : completion_service :=
  fun _ => Normal answer.








(** A clock that advances by one millisecond at each reading, two
    messages, a store holding one conversation and two further calls. *)
Definition sample_clock (n : nat) : Z := Z.of_nat n.

Definition hello : MessageStore.Message := {|
  MessageStore.msg_id := utf16 "msg_1";
  MessageStore.sender := utf16 "0xabc";
  MessageStore.content := utf16 "hello";
  MessageStore.timestamp := 0;
  MessageStore.type := MessageStore.incoming;
  MessageStore.msg_conversationId := Some (utf16 "c1")
|}.

Definition answer : MessageStore.Message := {|
  MessageStore.msg_id := utf16 "msg_2";
  MessageStore.sender := utf16 "Agent";
  MessageStore.content := utf16 "hi";
  MessageStore.timestamp := 1;
  MessageStore.type := MessageStore.outgoing;
  MessageStore.msg_conversationId := Some (utf16 "c1")
|}.

Definition sample_calls : list MessageStore.call :=
  [ {| MessageStore.call_message := hello;
       MessageStore.call_conversationId := utf16 "c2";
       MessageStore.call_participantAddress := utf16 "0xdef" |};
    {| MessageStore.call_message := answer;
       MessageStore.call_conversationId := utf16 "c1";
       MessageStore.call_participantAddress := utf16 "0xabc" |} ].

Definition one_conversation : MessageStore.store :=
  MessageStore.addMessage sample_clock hello (utf16 "c1") (utf16 "0xabc")
    MessageStore.empty.

(* ================================================================== *)
(** * Properties *)
(* ================================================================== *)

Unset Implicit Arguments.

Arguments utf16 : simpl never.
Arguments str_eqb : simpl never.
Arguments decimal : simpl never.

(** ** Strings and completions *)

Lemma str_eqb_eq : forall a b, str_eqb a b = true <-> a = b.
Proof.
  intros a b; unfold str_eqb; destruct (jsstring_eq_dec a b); split;
    congruence.
Qed.

Lemma str_eqb_refl : forall a, str_eqb a a = true.
Proof. intros a; apply str_eqb_eq; reflexivity. Qed.

Lemma str_eqb_neq : forall a b, a <> b -> str_eqb a b = false.
Proof.
  intros a b H; unfold str_eqb; destruct (jsstring_eq_dec a b); congruence.
Qed.


(** ** Classifier adapter *)

Lemma is_ActionId_In : forall s, is_ActionId s = true <-> In s ActionIds.
Proof.
  intros s; unfold is_ActionId, ActionIds; simpl.
  rewrite !orb_true_iff, !str_eqb_eq; intuition congruence.
Qed.

Lemma endpoint1_is_ActionId : is_ActionId endpoint1 = true.
Proof. apply is_ActionId_In; left; reflexivity. Qed.

Section ClassifierProperties.
Context {P : Platform}.

(** C2.  Whatever the message and whatever the completion service does,
    [decideApiEndpoint] returns normally, with a member of the closed set
    endpoint1, endpoint2, endpoint3: the trimmed, lower-cased answer of the
    service when that is a member, and endpoint1 when it is anything else
    or when the call raised. *)
Theorem decideApiEndpoint_closed_set :
  forall (userMessage : jsstring) (model : completion_service),
  exists action,
    decideApiEndpoint userMessage model = Normal action /\
    In action ActionIds /\
    action =
      match model (decision_prompt userMessage) with
      | Normal text =>
          let decision := toLowerCase (trim text) in
          if is_ActionId decision then decision else endpoint1
      | Throw _ => endpoint1
      end.
Proof.
  intros userMessage model; unfold decideApiEndpoint.
  destruct (model (decision_prompt userMessage)) as [text | e]; simpl.
  - fold (is_ActionId (toLowerCase (trim text))).
    destruct (is_ActionId (toLowerCase (trim text))) eqn:Hd.
    + eexists; split; [reflexivity | split; [| reflexivity]].
      now apply is_ActionId_In.
    + exists endpoint1; split; [reflexivity | split; [| reflexivity]].
      apply is_ActionId_In, endpoint1_is_ActionId.
  - exists endpoint1; split; [reflexivity | split; [| reflexivity]].
    apply is_ActionId_In, endpoint1_is_ActionId.
Qed.

End ClassifierProperties.

(** An answer in capitals with blanks around it, an answer outside the
    set, and no answer. *)
Lemma decideApiEndpoint_samples :
  decideApiEndpoint (P := sample_platform) (utf16 "latest tweets of bob")
    (constant_service (utf16 " ENDPOINT2 " ++ LF)) = Normal endpoint2 /\
  decideApiEndpoint (P := sample_platform) (utf16 "latest tweets of bob")
    (constant_service (utf16 "I would call endpoint2")) = Normal endpoint1 /\
  decideApiEndpoint (P := sample_platform) (utf16 "latest tweets of bob")
    failing_service = Normal endpoint1.
Proof. repeat split; vm_compute; reflexivity. Qed.

(** ** Parameter extractor *)

(** What the loop returns: the first word that starts with an at sign or
    is made of three or more word characters, whichever test it passes. *)
Lemma scan_words_first_match : forall before word after,
  (forall w, In w before ->
     startsWith w at_sign = false /\ matches_handle w = false) ->
  startsWith word at_sign = true \/ matches_handle word = true ->
  scan_words (before ++ word :: after) =
    Some (if startsWith word at_sign then substring_from word 1 else word).
Proof.
  induction before as [| w before IH]; intros word after Hb Hw; simpl.
  - destruct (startsWith word at_sign); [reflexivity |].
    destruct Hw as [Hw | Hw]; [discriminate | now rewrite Hw].
  - destruct (Hb w (or_introl eq_refl)) as [H1 H2]; rewrite H1, H2.
    apply IH; [intros w' Hin; apply Hb; now right | exact Hw].
Qed.

Lemma scan_words_none : forall words,
  (forall w, In w words ->
     startsWith w at_sign = false /\ matches_handle w = false) ->
  scan_words words = None.
Proof.
  induction words as [| w words IH]; intros H; simpl; [reflexivity |].
  destruct (H w (or_introl eq_refl)) as [H1 H2]; rewrite H1, H2.
  apply IH; intros w' Hin; apply H; now right.
Qed.

(** When the service fails, the result is that of the [catch] block. *)
Lemma extractAuthorHandle_failure : forall userMessage model e,
  model (extraction_prompt userMessage) = Throw e ->
  extractAuthorHandle userMessage model =
    Normal (extractAuthorHandle_catch userMessage).
Proof.
  intros userMessage model e H; unfold extractAuthorHandle; now rewrite H.
Qed.

(** C3.  With the service failing, the message
    "Get details for @elonmusk" yields "Get": the word "Get" passes the
    handle pattern before the loop reaches "@elonmusk", so the token with
    the at sign is not the one returned. *)
Theorem extractAuthorHandle_fallback_returns_earlier_word :
  extractAuthorHandle (utf16 "Get details for @elonmusk") failing_service
  = Normal (utf16 "Get").
Proof. vm_compute; reflexivity. Qed.

(** Words are what single spaces separate: after a tab the at sign does
    not start a word, and the whole message comes back. *)
Lemma extractAuthorHandle_fallback_tab :
  extractAuthorHandle (utf16 "hi" ++ [9%N] ++ utf16 "@bob") failing_service
  = Normal (utf16 "hi" ++ [9%N] ++ utf16 "@bob").
Proof. vm_compute; reflexivity. Qed.

(** The token with the at sign is returned, stripped, when no earlier word
    passes the handle pattern. *)
Lemma extractAuthorHandle_catch_at_first : forall userMessage before word after,
  split_on 32%N userMessage = before ++ word :: after ->
  (forall w, In w before ->
     startsWith w at_sign = false /\ matches_handle w = false) ->
  startsWith word at_sign = true ->
  extractAuthorHandle_catch userMessage = substring_from word 1.
Proof.
  intros userMessage before word after Hs Hb Hw.
  unfold extractAuthorHandle_catch; rewrite Hs.
  rewrite (scan_words_first_match before word after Hb (or_introl Hw)).
  now rewrite Hw.
Qed.

(** With no word passing either test, the trimmed message is returned. *)
Lemma extractAuthorHandle_catch_last_resort : forall userMessage,
  (forall w, In w (split_on 32%N userMessage) ->
     startsWith w at_sign = false /\ matches_handle w = false) ->
  extractAuthorHandle_catch userMessage = trim userMessage.
Proof.
  intros userMessage H; unfold extractAuthorHandle_catch.
  now rewrite (scan_words_none _ H).
Qed.

(** ** Lookup client *)

Lemma request_url_encoded : forall endpoint authorHandle encoded,
  encodeURIComponent authorHandle = Normal encoded ->
  exists u, request_url endpoint authorHandle = Normal u.
Proof.
  intros endpoint authorHandle encoded H; unfold request_url; rewrite H.
  destruct (str_eqb endpoint endpoint1); [simpl; eauto |].
  destruct (str_eqb endpoint endpoint2); [simpl; eauto |].
  destruct (str_eqb endpoint endpoint3); simpl; eauto.
Qed.

Lemma request_url_malformed : forall endpoint authorHandle e,
  encodeURIComponent authorHandle = Throw e ->
  request_url endpoint authorHandle = Throw e.
Proof.
  intros endpoint authorHandle e H; unfold request_url; rewrite H.
  destruct (str_eqb endpoint endpoint1); [reflexivity |].
  destruct (str_eqb endpoint endpoint2); [reflexivity |].
  destruct (str_eqb endpoint endpoint3); reflexivity.
Qed.

Lemma request_url_default : forall endpoint authorHandle,
  ~ In endpoint ActionIds ->
  request_url endpoint authorHandle = request_url endpoint1 authorHandle.
Proof.
  intros endpoint authorHandle Hn.
  assert (Hf : is_ActionId endpoint = false).
  { destruct (is_ActionId endpoint) eqn:E; [| reflexivity].
    exfalso; apply Hn; now apply is_ActionId_In. }
  unfold is_ActionId in Hf; apply orb_false_iff in Hf as [Hf H3].
  apply orb_false_iff in Hf as [H1 H2].
  unfold request_url; rewrite H1, H2, H3, str_eqb_refl; reflexivity.
Qed.

(** The only error of [encodeURIComponent]. *)
Lemma encodeURIComponent_throws_URIError : forall n s e,
  (List.length s <= n)%nat -> encodeURIComponent s = Throw e -> e = URIError.
Proof.
  induction n as [| n IH]; intros [| c r] e Hlen; simpl in *;
    try discriminate; try lia.
  destruct (is_uri_unreserved c).
  - destruct (encodeURIComponent r) eqn:Er; simpl; [discriminate |].
    intros H; injection H as <-; apply (IH r); [lia | exact Er].
  - destruct (is_trail_surrogate c); [congruence |].
    destruct (is_lead_surrogate c).
    + destruct r as [| d r']; [congruence |].
      destruct (is_trail_surrogate d); [| congruence].
      destruct (encodeURIComponent r') eqn:Er; simpl; [discriminate |].
      intros H; injection H as <-; apply (IH r'); [simpl in Hlen; lia | exact Er].
    + destruct (encodeURIComponent r) eqn:Er; simpl; [discriminate |].
      intros H; injection H as <-; apply (IH r); [lia | exact Er].
Qed.

(** The encoded parameter holds no dollar sign, so [replace] inserts it
    as it is. *)
Lemma hex_digit_not_dollar : forall n, hex_digit n <> 36%N.
Proof.
  intros n; unfold hex_digit; destruct (n <? 10)%N; lia.
Qed.

Lemma escape_no_dollar : forall cp, ~ In 36%N (escape_code_point cp).
Proof.
  intros cp; unfold escape_code_point; rewrite in_flat_map.
  intros [b [_ Hb]]; unfold percent_octet in Hb; simpl in Hb.
  destruct Hb as [Hb | [Hb | [Hb | []]]]; try discriminate;
    now apply hex_digit_not_dollar in Hb.
Qed.

Lemma encodeURIComponent_no_dollar : forall n s encoded,
  (List.length s <= n)%nat ->
  encodeURIComponent s = Normal encoded -> ~ In 36%N encoded.
Proof.
  induction n as [| n IH]; intros [| c r] encoded Hlen; simpl in *;
    try lia; try (intros H; injection H as <-; exact (fun x => x)).
  destruct (is_uri_unreserved c) eqn:Hc.
  - destruct (encodeURIComponent r) as [rest |] eqn:Er; simpl;
      [| discriminate].
    intros H; injection H as <-; intros [Heq | Hin];
      [subst c; vm_compute in Hc; discriminate |].
    revert Hin; apply (IH r); [lia | exact Er].
  - destruct (is_trail_surrogate c); [discriminate |].
    destruct (is_lead_surrogate c).
    + destruct r as [| d r']; [discriminate |].
      destruct (is_trail_surrogate d); [| discriminate].
      destruct (encodeURIComponent r') as [rest |] eqn:Er; simpl;
        [| discriminate].
      intros H; injection H as <-; rewrite in_app_iff; intros [Hin | Hin];
        [now apply escape_no_dollar in Hin |].
      revert Hin; apply (IH r'); [simpl in Hlen; lia | exact Er].
    + destruct (encodeURIComponent r) as [rest |] eqn:Er; simpl;
        [| discriminate].
      intros H; injection H as <-; rewrite in_app_iff; intros [Hin | Hin];
        [now apply escape_no_dollar in Hin |].
      revert Hin; apply (IH r); [lia | exact Er].
Qed.

Section LookupProperties.
Context {P : Platform}.

Variables endpoint authorHandle : jsstring.

(** A settled promise stays as it is. *)
Lemma settled_forever : forall trace st s,
  promise st = Some s ->
  promise (handle_events endpoint authorHandle trace st) = Some s.
Proof.
  unfold handle_events.
  induction trace as [| ev trace IH]; intros st s H; simpl; [exact H |].
  apply IH; destruct ev; simpl; rewrite ?H; try reflexivity.
  destruct (JSON_parse (data st)); reflexivity.
Qed.


Lemma url_unchanged : forall trace st,
  url (handle_events endpoint authorHandle trace st) = url st.
Proof.
  unfold handle_events.
  induction trace as [| ev trace IH]; intros st; simpl; [reflexivity |].
  rewrite IH; destruct ev; reflexivity.
Qed.

(** Chunks accumulate in [data] and settle nothing. *)
Lemma chunks_received : forall chunks st,
  handle_events endpoint authorHandle (map ResponseData chunks) st =
    {| url := url st; data := data st ++ List.concat chunks;
       destroyed := destroyed st; promise := promise st |}.
Proof.
  unfold handle_events.
  induction chunks as [| chunk chunks IH]; intros st; simpl.
  - rewrite app_nil_r; destruct st; reflexivity.
  - rewrite IH; simpl; now rewrite <- app_assoc.
Qed.

Lemma handle_events_app : forall t1 t2 st,
  handle_events endpoint authorHandle (t1 ++ t2) st =
    handle_events endpoint authorHandle t2
      (handle_events endpoint authorHandle t1 st).
Proof. intros; unfold handle_events; apply fold_left_app. Qed.

(** The first event after the chunks settles a pending promise, and what
    follows changes nothing. *)
Lemma first_settling_event : forall chunks ev rest u,
  let st0 := {| url := Some u; data := []; destroyed := false;
                promise := None |} in
  let st1 := on_event endpoint authorHandle
               {| url := Some u; data := List.concat chunks;
                  destroyed := false; promise := None |} ev in
  forall s, promise st1 = Some s ->
  promise (handle_events endpoint authorHandle
             (map ResponseData chunks ++ ev :: rest) st0) = Some s.
Proof.
  intros chunks ev rest u st0 st1 s Hs.
  rewrite handle_events_app, chunks_received; simpl.
  change (promise (handle_events endpoint authorHandle rest st1) = Some s).
  now apply settled_forever.
Qed.

(** No handler rejects, and every result names the endpoint as given. *)
Lemma names_endpoint_resolve : forall v p,
  get_prop v (utf16 "endpoint_used") = Normal (VStr endpoint) ->
  names_endpoint endpoint p -> names_endpoint endpoint (resolve v p).
Proof. intros v [s |] Hv Hp; simpl; assumption. Qed.

Lemma names_endpoint_kept : forall trace st,
  names_endpoint endpoint (promise st) ->
  names_endpoint endpoint
    (promise (handle_events endpoint authorHandle trace st)).
Proof.
  unfold handle_events.
  induction trace as [| ev trace IH]; intros st H; simpl; [exact H |].
  apply IH; destruct ev; simpl; try exact H;
    try (apply names_endpoint_resolve; [reflexivity | exact H]).
  destruct (JSON_parse (data st));
    (apply names_endpoint_resolve; [reflexivity | exact H]).
Qed.

Lemma makeApiCall_names_endpoint : forall encoded trace,
  encodeURIComponent authorHandle = Normal encoded ->
  names_endpoint endpoint
    (promise (makeApiCall endpoint authorHandle trace)).
Proof.
  intros encoded trace He; unfold makeApiCall.
  destruct (request_url_encoded endpoint _ _ He) as [u ->].
  apply names_endpoint_kept; exact I.
Qed.

(** A parameter that cannot be encoded: the executor raises, the promise
    is rejected and no request is made. *)
Lemma makeApiCall_malformed : forall e trace,
  encodeURIComponent authorHandle = Throw e ->
  makeApiCall endpoint authorHandle trace =
    {| url := None; data := []; destroyed := false;
       promise := Some (Rejected URIError) |}.
Proof.
  intros e trace He; unfold makeApiCall.
  rewrite (request_url_malformed endpoint _ _ He).
  now rewrite (@encodeURIComponent_throws_URIError _ authorHandle e (le_n _) He).
Qed.

End LookupProperties.

Section LookupOutcomes.
Context {P : Platform}.

(** The end of the response settles a pending promise with the parsed
    body, or with the raw text when it does not parse. *)
Lemma response_end_settles :
  forall (endpoint authorHandle encoded : jsstring),
    encodeURIComponent authorHandle = Normal encoded ->
    forall (chunks : list jsstring) (rest : list transport_event),
      promise (makeApiCall endpoint authorHandle
                 (map ResponseData chunks ++ ResponseEnd :: rest)) =
        Some (Fulfilled
                match JSON_parse (List.concat chunks) with
                | Some parsed => success_result endpoint authorHandle parsed
                | None =>
                    parse_failure_result endpoint authorHandle
                      (List.concat chunks)
                end).
Proof.
  intros endpoint authorHandle encoded He chunks rest.
  destruct (request_url_encoded endpoint _ _ He) as [u Hu].
  unfold makeApiCall; rewrite Hu.
  apply first_settling_event; simpl.
  destruct (JSON_parse (List.concat chunks)); reflexivity.
Qed.


(** C5, as amended.  An action identifier outside the closed set is sent
    to the address of the default action, endpoint1; the [endpoint_used]
    field of every result nevertheless repeats the identifier as it was
    given, so it is not a member of the closed set. *)
Theorem makeApiCall_unknown_endpoint :
  forall (endpoint authorHandle : jsstring),
    ~ In endpoint ActionIds ->
    request_url endpoint authorHandle = request_url endpoint1 authorHandle /\
    (forall trace,
       url (makeApiCall endpoint authorHandle trace) =
         url (makeApiCall endpoint1 authorHandle trace)) /\
    (forall trace v,
       promise (makeApiCall endpoint authorHandle trace) =
         Some (Fulfilled v) ->
       get_prop v (utf16 "endpoint_used") = Normal (VStr endpoint) /\
       forall action, In action ActionIds ->
         get_prop v (utf16 "endpoint_used") <> Normal (VStr action)).
Proof.
  intros endpoint authorHandle Hn.
  pose proof (request_url_default _ authorHandle Hn) as Hurl.
  split; [exact Hurl | split].
  - intros trace; unfold makeApiCall; rewrite Hurl.
    destruct (request_url endpoint1 authorHandle); [| reflexivity].
    now rewrite !url_unchanged.
  - intros trace v Hv.
    assert (Hused : get_prop v (utf16 "endpoint_used")
                    = Normal (VStr endpoint)).
    { destruct (encodeURIComponent authorHandle) as [encoded | e] eqn:He.
      - pose proof (@makeApiCall_names_endpoint P endpoint authorHandle encoded
                    trace He) as Hp.
        now rewrite Hv in Hp.
      - rewrite (@makeApiCall_malformed P endpoint authorHandle e trace He)
          in Hv.
        discriminate. }
    split; [exact Hused |].
    intros action Ha; rewrite Hused; intros Heq.
    apply Hn; injection Heq as ->; exact Ha.
Qed.

(** Which values are falsy. *)
Lemma falsy_values : forall v,
  truthy v = false <->
  v = VUndefined \/ v = VNull \/ v = VBool false \/ v = VNum 0
  \/ v = VStr [].
Proof.
  intros v; split.
  - destruct v as [| | [|] | n | [| c s] | l | props]; simpl; intros H;
      try discriminate; auto.
    apply negb_false_iff, Z.eqb_eq in H; subst; auto.
  - intros [-> | [-> | [-> | [-> | ->]]]]; reflexivity.
Qed.

(** C9.  When the body of the response parses as a falsy value ([null],
    [false], [0] or the empty string), the lookup succeeds with that value
    in the [data] field, and the reply is the indented JSON of the whole
    lookup result, whichever endpoint was selected: no dedicated formatter
    runs, because the dispatch asks for a truthy [data]. *)
Theorem falsy_payload_is_dumped :
  forall (selectedEndpoint authorHandle encoded : jsstring)
         (chunks : list jsstring) (rest : list transport_event)
         (parsed : value),
    encodeURIComponent authorHandle = Normal encoded ->
    JSON_parse (List.concat chunks) = Some parsed ->
    parsed = VNull \/ parsed = VBool false \/ parsed = VNum 0
    \/ parsed = VStr [] ->
    let apiResponse := success_result selectedEndpoint authorHandle parsed in
    let trace := map ResponseData chunks ++ ResponseEnd :: rest in
    promise (makeApiCall selectedEndpoint authorHandle trace) =
      Some (Fulfilled apiResponse) /\
    responseMessage selectedEndpoint apiResponse =
      Normal (JSON_stringify apiResponse) /\
    (forall messageContent model,
       decideApiEndpoint messageContent model = Normal selectedEndpoint ->
       extractAuthorHandle messageContent model = Normal authorHandle ->
       reply messageContent model trace =
         Some (JSON_stringify apiResponse)).
Proof.
  intros selectedEndpoint authorHandle encoded chunks rest parsed
    He Hparse Hfalsy apiResponse trace.
  assert (Hpromise : promise (makeApiCall selectedEndpoint authorHandle trace)
                     = Some (Fulfilled apiResponse)).
  { pose proof (@response_end_settles selectedEndpoint authorHandle encoded
                  He chunks rest) as Hend.
    rewrite Hparse in Hend; exact Hend. }
  assert (Hdump : responseMessage selectedEndpoint apiResponse
                  = Normal (JSON_stringify apiResponse)).
  { assert (Ht : truthy parsed = false)
      by (apply falsy_values; tauto).
    unfold responseMessage, apiResponse, success_result.
    cbn [get_prop bind].
    replace (field _ (utf16 "data")) with parsed
      by (vm_compute; reflexivity).
    rewrite Ht; reflexivity. }
  repeat split; [exact Hpromise | exact Hdump |].
  intros messageContent model Hd Hx; unfold reply.
  now rewrite Hd, Hx, Hpromise, Hdump.
Qed.

(** A rejected lookup is answered with the error envelope. *)
Lemma reply_on_rejection :
  forall messageContent model trace selectedEndpoint authorHandle e,
    decideApiEndpoint messageContent model = Normal selectedEndpoint ->
    extractAuthorHandle messageContent model = Normal authorHandle ->
    encodeURIComponent authorHandle = Throw e ->
    reply messageContent model trace =
      Some (JSON_stringify failed_to_process).
Proof.
  intros messageContent model trace selectedEndpoint authorHandle e
    Hd Hx He; unfold reply.
  rewrite Hd, Hx.
  now rewrite (@makeApiCall_malformed P selectedEndpoint authorHandle e
                 trace He).
Qed.

(** While only chunks of the body arrive, the promise is pending. *)
Lemma pending_while_receiving :
  forall endpoint authorHandle encoded chunks,
    encodeURIComponent authorHandle = Normal encoded ->
    promise (makeApiCall endpoint authorHandle (map ResponseData chunks))
      = None.
Proof.
  intros endpoint authorHandle encoded chunks He.
  destruct (request_url_encoded endpoint _ _ He) as [u Hu].
  unfold makeApiCall; rewrite Hu, chunks_received; reflexivity.
Qed.

End LookupOutcomes.

(** ** Response formatters *)




Section FalsyAsMissing.

Variables (props : properties_t) (k : jsstring) (v : value).
Hypothesis present : own_property k props = Some v.
Hypothesis falsy : truthy v = false.






End FalsyAsMissing.







(** The tweets formatter takes a missing [result] for an empty list. *)
Lemma formatEndpoint2_missing_result : forall (P : Platform) data,
  get_prop data (utf16 "result") = Normal VUndefined \/
  get_prop data (utf16 "result") = Normal VNull ->
  formatEndpoint2Response data = Normal no_tweets.
Proof.
  intros P data [H | H]; unfold formatEndpoint2Response, formatEndpoint2_try;
    rewrite H; reflexivity.
Qed.





Section TweetBodies.
Context {P : Platform}.





End TweetBodies.

(** ** Conversation store *)

Section SortByKey.

Variables (A : Type) (key : A -> Z).

Lemma insert_by_Permutation : forall compare (x : A) l,
  Permutation (insert_by compare x l) (x :: l).
Proof.
  intros compare x l; induction l as [| y r IH]; simpl; [reflexivity |].
  destruct (compare x y <=? 0)%Z; [reflexivity |].
  rewrite IH; apply perm_swap.
Qed.

Lemma Array_sort_Permutation : forall compare (l : list A),
  Permutation (Array_sort compare l) l.
Proof.
  intros compare l; induction l as [| x l IH]; simpl; [reflexivity |].
  rewrite insert_by_Permutation; now constructor.
Qed.

Lemma insert_by_sorted : forall x l,
  StronglySorted (fun a b => (key b <= key a)%Z) l ->
  StronglySorted (fun a b => (key b <= key a)%Z)
    (insert_by (fun a b => (key b - key a)%Z) x l).
Proof.
  intros x l H; induction H as [| y r Hr IH Hy]; simpl.
  - repeat constructor.
  - destruct (Z.leb_spec (key y - key x) 0) as [Hle | Hgt].
    + constructor; [now constructor |].
      constructor; [lia |].
      eapply Forall_impl; [| exact Hy]; simpl; intros z Hz; lia.
    + constructor; [exact IH |].
      eapply Permutation_Forall;
        [symmetry; apply insert_by_Permutation |].
      constructor; [lia | exact Hy].
Qed.

Lemma Array_sort_sorted : forall l,
  StronglySorted (fun a b => (key b <= key a)%Z)
    (Array_sort (fun a b => (key b - key a)%Z) l).
Proof.
  induction l as [| x l IH]; simpl; [constructor |].
  now apply insert_by_sorted.
Qed.

End SortByKey.

Module StoreFacts.
Import MessageStore.

Lemma get_update_same : forall k f m c,
  get k m = Some c -> get k (update k f m) = Some (f c).
Proof.
  intros k f m c; induction m as [| [k' c'] m IH]; simpl; [discriminate |].
  destruct (str_eqb k k') eqn:E; simpl; rewrite E; [congruence | exact IH].
Qed.

Lemma get_update_other : forall k k' f m,
  k' <> k -> get k' (update k f m) = get k' m.
Proof.
  intros k k' f m Hne; induction m as [| [k0 c0] m IH]; simpl;
    [reflexivity |].
  destruct (str_eqb k k0) eqn:E; simpl.
  - apply str_eqb_eq in E; subst k0.
    now rewrite (str_eqb_neq _ _ Hne).
  - destruct (str_eqb k' k0); [reflexivity | exact IH].
Qed.

Lemma get_app_new : forall k m c,
  get k m = None -> get k (m ++ [(k, c)]) = Some c.
Proof.
  intros k m c; induction m as [| [k' c'] m IH]; simpl.
  - now rewrite str_eqb_refl.
  - destruct (str_eqb k k'); [discriminate | exact IH].
Qed.

Lemma get_app_other : forall k k' m c,
  k' <> k -> get k' (m ++ [(k, c)]) = get k' m.
Proof.
  intros k k' m c Hne; induction m as [| [k0 c0] m IH]; simpl.
  - now rewrite (str_eqb_neq _ _ Hne).
  - destruct (str_eqb k' k0); [reflexivity | exact IH].
Qed.

Lemma keys_update : forall k f m,
  map fst (update k f m) = map fst m.
Proof.
  intros k f m; induction m as [| [k' c'] m IH]; simpl; [reflexivity |].
  destruct (str_eqb k k'); simpl; [reflexivity | now rewrite IH].
Qed.

Lemma grown_from_refl : forall c, grown_from c c.
Proof.
  intros c; repeat split; exists []; now rewrite app_nil_r.
Qed.

Lemma grown_from_trans : forall a b c,
  grown_from a b -> grown_from b c -> grown_from a c.
Proof.
  intros a b c (H1 & H2 & [x Hx]) (H3 & H4 & [y Hy]); repeat split;
    try congruence.
  exists (x ++ y); rewrite Hy, Hx; now rewrite app_assoc.
Qed.

Section Clock.
Variable clock : nat -> Z.

(** One call: what is stored under the identifier afterwards, and that the
    other conversations are untouched. *)
Lemma addMessage_get : forall message k p st,
  get k (conversations (addMessage clock message k p st)) =
    Some match get k (conversations st) with
         | None =>
             {| id := k; participantAddress := p; messages := [message];
                lastActivity := clock (S (ticks st)) |}
         | Some c =>
             {| id := id c; participantAddress := participantAddress c;
                messages := messages c ++ [message];
                lastActivity := clock (ticks st) |}
         end.
Proof.
  intros message k p st; unfold addMessage, has.
  destruct (get k (conversations st)) as [c |] eqn:E; simpl.
  - now rewrite (get_update_same _ _ _ _ E).
  - erewrite get_update_same; [| apply get_app_new, E]; reflexivity.
Qed.

Lemma addMessage_get_other : forall message k p st k',
  k' <> k ->
  get k' (conversations (addMessage clock message k p st)) =
    get k' (conversations st).
Proof.
  intros message k p st k' Hne; unfold addMessage, has.
  destruct (get k (conversations st)); cbn [conversations ticks];
    rewrite get_update_other by exact Hne; [reflexivity |].
  now apply get_app_other.
Qed.

Lemma addMessage_keys : forall message k p st,
  map fst (conversations (addMessage clock message k p st)) =
    map fst (conversations st)
    ++ (if has k (conversations st) then [] else [k]).
Proof.
  intros message k p st; unfold addMessage; simpl; rewrite keys_update.
  destruct (has k (conversations st)); simpl;
    [now rewrite app_nil_r | now rewrite map_app].
Qed.

Lemma addMessage_grows : forall message k p st k' c,
  get k' (conversations st) = Some c ->
  exists c', get k' (conversations (addMessage clock message k p st))
             = Some c' /\ grown_from c c'.
Proof.
  intros message k p st k' c Hc.
  destruct (jsstring_eq_dec k' k) as [-> | Hne].
  - rewrite addMessage_get, Hc; eexists; split; [reflexivity |].
    repeat split; simpl; eauto.
  - rewrite addMessage_get_other by exact Hne.
    exists c; split; [exact Hc | apply grown_from_refl].
Qed.

(** The keys of the map stay distinct. *)
Lemma get_None_not_key : forall k m,
  get k m = None -> ~ In k (map fst m).
Proof.
  intros k m; induction m as [| [k' c'] m IH]; simpl; [tauto |].
  destruct (str_eqb k k') eqn:E; [discriminate |].
  intros H [Heq | Hin]; [| now apply IH].
  subst k'; now rewrite str_eqb_refl in E.
Qed.

Lemma addMessage_NoDup : forall message k p st,
  NoDup (map fst (conversations st)) ->
  NoDup (map fst (conversations (addMessage clock message k p st))).
Proof.
  intros message k p st Hnd; rewrite addMessage_keys; unfold has.
  destruct (get k (conversations st)) eqn:E;
    [now rewrite app_nil_r |].
  apply NoDup_app; repeat split; auto.
  - repeat constructor; simpl; tauto.
  - intros x Hx [<- | []]; revert Hx; now apply get_None_not_key.
Qed.

Lemma run_grows : forall calls st k c,
  get k (conversations st) = Some c ->
  exists c', get k (conversations (run clock calls st)) = Some c' /\
             grown_from c c'.
Proof.
  induction calls as [| call calls IH]; intros st k c Hc; simpl.
  - exists c; split; [exact Hc | apply grown_from_refl].
  - destruct (addMessage_grows (call_message call)
                (call_conversationId call) (call_participantAddress call)
                st k c Hc) as [c1 [H1 G1]].
    destruct (IH _ k c1 H1) as [c2 [H2 G2]].
    exists c2; split; [exact H2 | eapply grown_from_trans; eauto].
Qed.

End Clock.
End StoreFacts.

(** C8.  Along every sequence of [addMessage] calls, from any state of the
    store: a conversation that is stored stays stored, with the same
    identifier and participant and with its earlier messages as a prefix
    of its messages; a call for an identifier not yet stored creates the
    conversation with that one message, a call for a stored identifier
    appends the message, and either way the conversation's [lastActivity]
    becomes the time read during the call while every other conversation
    is left as it was; and [getConversations] returns all the stored
    conversations, the most recently active first. *)
Theorem store_appends_and_orders :
  forall (clock : nat -> Z) (calls : list MessageStore.call)
         (st : MessageStore.store),
    let st' := MessageStore.run clock calls st in
    (forall k c,
       MessageStore.get k (MessageStore.conversations st) = Some c ->
       exists c',
         MessageStore.get k (MessageStore.conversations st') = Some c' /\
         MessageStore.grown_from c c') /\
    (forall message k p,
       let st1 := MessageStore.addMessage clock message k p st in
       MessageStore.get k (MessageStore.conversations st1) =
         Some match MessageStore.get k (MessageStore.conversations st) with
              | None =>
                  {| MessageStore.id := k;
                     MessageStore.participantAddress := p;
                     MessageStore.messages := [message];
                     MessageStore.lastActivity :=
                       clock (S (MessageStore.ticks st)) |}
              | Some c =>
                  {| MessageStore.id := MessageStore.id c;
                     MessageStore.participantAddress :=
                       MessageStore.participantAddress c;
                     MessageStore.messages :=
                       MessageStore.messages c ++ [message];
                     MessageStore.lastActivity :=
                       clock (MessageStore.ticks st) |}
              end /\
       (forall k', k' <> k ->
          MessageStore.get k' (MessageStore.conversations st1) =
            MessageStore.get k' (MessageStore.conversations st)) /\
       map fst (MessageStore.conversations st1) =
         map fst (MessageStore.conversations st)
         ++ (if MessageStore.has k (MessageStore.conversations st)
             then [] else [k])) /\
    Permutation (MessageStore.getConversations st')
      (map snd (MessageStore.conversations st')) /\
    StronglySorted MessageStore.not_older
      (MessageStore.getConversations st').
Proof.
  intros clock calls st st'; repeat split.
  - intros k c Hc; apply StoreFacts.run_grows; exact Hc.
  - apply StoreFacts.addMessage_get.
  - intros k' Hne; apply StoreFacts.addMessage_get_other; exact Hne.
  - apply StoreFacts.addMessage_keys.
  - apply Array_sort_Permutation.
  - apply (Array_sort_sorted _ MessageStore.lastActivity).
Qed.

(* ================================================================== *)
(** * Evaluated instances *)
(* ================================================================== *)



(** Counterexample to C5 as first stated.  An identifier outside the
    closed set comes back in
    [endpoint_used] as it was given. *)
Lemma makeApiCall_echoes_unknown_endpoint :
  promise (@makeApiCall sample_platform (utf16 "endpoint9") (utf16 "bob")
             [ResponseData (utf16 "{}"); ResponseEnd]) =
    Some (Fulfilled
            (success_result (utf16 "endpoint9") (utf16 "bob") (VObj []))) /\
  get_prop (success_result (utf16 "endpoint9") (utf16 "bob") (VObj []))
    (utf16 "endpoint_used") = Normal (VStr (utf16 "endpoint9")) /\
  ~ In (utf16 "endpoint9") ActionIds.
Proof.
  repeat split; try (vm_compute; reflexivity).
  intros H; apply is_ActionId_In in H; vm_compute in H; discriminate H.
Qed.

Lemma makeApiCall_unknown_endpoint_witness :
  ~ In (utf16 "endpoint9") ActionIds /\
  request_url (utf16 "endpoint9") (utf16 "bob") =
    request_url endpoint1 (utf16 "bob").
Proof.
  assert (Hn : ~ In (utf16 "endpoint9") ActionIds).
  { intros H; apply is_ActionId_In in H; vm_compute in H; discriminate H. }
  split; [exact Hn |].
  exact (proj1 (@makeApiCall_unknown_endpoint sample_platform
                  (utf16 "endpoint9") (utf16 "bob") Hn)).
Defined.

Lemma falsy_payload_is_dumped_witness :
  @JSON_parse sample_platform (utf16 "null") = Some VNull /\
  reply (P := sample_platform) (utf16 "who is bob")
    (constant_service (utf16 " Endpoint1 "))
    [ResponseData (utf16 "null"); ResponseEnd] =
  Some (sample_JSON_stringify
          (success_result endpoint1 (utf16 "Endpoint1") VNull)).
Proof.
  split; [reflexivity |].
  refine (proj2 (proj2 (@falsy_payload_is_dumped sample_platform endpoint1
                          (utf16 "Endpoint1") (utf16 "Endpoint1")
                          [utf16 "null"] [] VNull
                          eq_refl eq_refl (or_introl eq_refl)))
            (utf16 "who is bob") (constant_service (utf16 " Endpoint1 "))
            _ _); vm_compute; reflexivity.
Defined.







Lemma store_appends_and_orders_witness :
  MessageStore.get (utf16 "c1") (MessageStore.conversations one_conversation)
    <> None /\
  map MessageStore.id
    (MessageStore.getConversations
       (MessageStore.run sample_clock sample_calls one_conversation)) =
    [utf16 "c1"; utf16 "c2"] /\
  StronglySorted MessageStore.not_older
    (MessageStore.getConversations
       (MessageStore.run sample_clock sample_calls one_conversation)).
Proof.
  pose proof (store_appends_and_orders sample_clock sample_calls
                one_conversation) as (Hgrow & _ & _ & Hsorted).
  split; [vm_compute; discriminate | split; [reflexivity | exact Hsorted]].
Defined.
